(** * SVGD (numpyro-stein): the vector raveler and the Stein step functions

    Shallow embedding of [src/numpyro_stein/util.py] (the raveler) and of
    [src/numpyro/stein/stein.py] (the [SVGD] class).  A Python exception is
    modelled by [None] in the [option] monad.  Functions of JAX and NumPyro
    that the two files call but do not define are section variables
    (automatic differentiation, random keys, the probabilistic programs, the
    optimizer) or follow their documentation (reshape, concatenate, dynamic
    slice, [transform_fn]); arithmetic is exact. *)

From stdpp Require Import gmap strings list fin_maps.
From Stdlib Require Import ZArith Ring.

(** ** Arrays *)

(** [np.prod] of a shape. *)
Definition size_of (s : list nat) : nat := foldr Nat.mul 1 s.

(** [np.cumsum] on a one-dimensional array of naturals. *)
Fixpoint cumsum_from (acc : nat) (l : list nat) : list nat :=
  match l with
  | [] => []
  | x :: l' => (acc + x) :: cumsum_from (acc + x) l'
  end.

Definition cumsum (l : list nat) : list nat := cumsum_from 0 l.

(** Row-major data of [B] rows, each the concatenation of one chunk of
    every part: the data of [np.concatenate(parts, axis=-1)] when every part
    has [B] rows and row length [p.1]. *)
Fixpoint concat_rows {A} (B : nat) (parts : list (nat * list A)) : list A :=
  match B with
  | 0 => []
  | S B' =>
      flat_map (λ p, take p.1 p.2) parts
        ++ concat_rows B' ((λ p, (p.1, drop p.1 p.2)) <$> parts)
  end.

(** Out of each of [B] consecutive rows of length [D], the [len] entries
    from position [start]. *)
Fixpoint slice_rows {A} (B D start len : nat) (l : list A) : list A :=
  match B with
  | 0 => []
  | S B' => take len (drop start (take D l)) ++ slice_rows B' D start len (drop D l)
  end.

(** ** Facts about rows and offsets *)












(** A slice of [len] entries out of each of [B] rows. *)
Lemma length_slice_rows {A} (B D start len : nat) (l : list A) :
  length l = B * D → start + len ≤ D →
  length (slice_rows B D start len l) = B * len.
Proof.
  revert l. induction B as [|B IH]; intros l Hl Hle; [done|].
  cbn [slice_rows]. rewrite length_app, length_take, length_drop, length_take.
  rewrite IH by (rewrite ?length_drop; lia). lia.
Qed.

Lemma size_of_insert (s : list nat) (axis d n : nat) :
  s !! axis = Some d →
  size_of (<[axis := n]> s)
  = size_of (take axis s) * (n * size_of (drop (S axis) s)).
Proof.
  revert axis. induction s as [|x s IH]; intros axis H; [done|].
  destruct axis as [|axis]; simpl in *.
  - rewrite drop_0. lia.
  - rewrite (IH axis H). lia.
Qed.

Lemma size_of_lookup (s : list nat) (axis d : nat) :
  s !! axis = Some d →
  size_of s = size_of (take axis s) * (d * size_of (drop (S axis) s)).
Proof.
  intros H. rewrite <- (size_of_insert s axis d d H). by rewrite list_insert_id.
Qed.

Module Util.

Section Raveler.
(** Array elements, dtypes and the conversions of the array library. *)
Context {elem DType : Type}.
Variable canonicalize_dtype : DType → DType.
(** dtype that [np.concatenate] gives to its result *)
Variable result_type : list DType → DType.
(** dtype of [np.array([])] *)
Variable default_float : DType.
(** conversion of one element to a dtype *)
Variable cast : DType → elem → elem.

Record tensor := Tensor {
  tshape : list nat;
  tdtype : DType;
  tdata : list elem
}.

Record pytree_metadata := Metadata {
  flat : tensor;
  shape : list nat;
  event_size : nat;
  dtype : DType
}.

(** [np.reshape(t, newshape)] for a fully given [newshape]. *)
Definition np_reshape (t : tensor) (newshape : list nat) : option tensor :=
  if decide (size_of newshape = size_of (tshape t))
  then Some (Tensor newshape (tdtype t) (tdata t))
  else None.

(** [t.astype(d)] *)
Definition astype (d : DType) (t : tensor) : tensor :=
  Tensor (tshape t) d (cast d <$> tdata t).

(** [lax.dynamic_slice_in_dim(arr, start, size, axis)]: the slice size may
    not exceed the axis, and the start index is clamped so that the slice
    lies inside the array. *)
Definition dynamic_slice_in_dim (arr : tensor) (start size axis : nat)
  : option tensor :=
  match tshape arr !! axis with
  | None => None
  | Some d =>
      if decide (size ≤ d) then
        let start' := start `min` (d - size) in
        let inner := size_of (drop (S axis) (tshape arr)) in
        let outer := size_of (take axis (tshape arr)) in
        Some (Tensor (<[axis := size]> (tshape arr)) (tdtype arr)
                (slice_rows outer (d * inner) (start' * inner) (size * inner)
                   (tdata arr)))
      else None
  end.

(** [np.concatenate(ts, axis=-1)]: all arrays agree on every axis but the
    last, and every array is converted to the common dtype. *)
Definition concatenate_last (ts : list tensor) : option tensor :=
  match ts with
  | [] => None
  | t :: _ =>
      let batch := removelast (tshape t) in
      let rt := result_type (tdtype <$> ts) in
      if decide (Forall (λ u, tshape u ≠ [] ∧ removelast (tshape u) = batch) ts)
      then Some (Tensor (batch ++ [sum_list ((λ u, List.last (tshape u) 0) <$> ts)]) rt
                   (concat_rows (size_of batch)
                      ((λ u, (List.last (tshape u) 0, cast rt <$> tdata u)) <$> ts)))
      else None
  end.

(** The metadata that [_ravel_list] records for one leaf. *)
Definition leaf_metadata (batch_dims : nat) (l : tensor) : pytree_metadata :=
  Metadata
    (Tensor (take batch_dims (tshape l) ++ [size_of (drop batch_dims (tshape l))])
       (tdtype l) (tdata l))
    (tshape l)
    (size_of (drop batch_dims (tshape l)))
    (canonicalize_dtype (tdtype l)).

(** One entry of the list that [unravel_list] builds, for the leaf of
    index [im.1] and metadata [im.2]. *)
Definition unravel_leaf (batch_dims : nat) (leaves_idx : list nat) (arr : tensor)
    (im : nat * pytree_metadata) : option tensor :=
  s ← dynamic_slice_in_dim arr (leaves_idx !!! im.1) (event_size im.2) 0;
  r ← np_reshape s (drop batch_dims (shape im.2));
  Some (astype (dtype im.2) r).

Definition unravel_list (batch_dims : nat) (leaves_metadata : list pytree_metadata)
    (leaves_idx : list nat) (arr : tensor) : option (list tensor) :=
  mapM (unravel_leaf batch_dims leaves_idx arr) (imap pair leaves_metadata).

(** One entry of the list that [unravel_list_batched] builds. *)
Definition unravel_leaf_batched (batch_dims : nat) (leaves_idx : list nat)
    (arr : tensor) (im : nat * pytree_metadata) : option tensor :=
  s ← dynamic_slice_in_dim arr (leaves_idx !!! im.1) (event_size im.2) batch_dims;
  r ← np_reshape s (shape im.2);
  Some (astype (dtype im.2) r).

Definition unravel_list_batched (batch_dims : nat)
    (leaves_metadata : list pytree_metadata)
    (leaves_idx : list nat) (arr : tensor) : option (list tensor) :=
  mapM (unravel_leaf_batched batch_dims leaves_idx arr) (imap pair leaves_metadata).

Definition _ravel_list (leaves : list tensor) (batch_dims : nat)
  : option (tensor * (tensor → option (list tensor))
                   * (tensor → option (list tensor))) :=
  let leaves_metadata := leaf_metadata batch_dims <$> leaves in
  let leaves_idx := cumsum (0 :: (event_size <$> leaves_metadata)) in
  fl ← match leaves_metadata with
       | [] => Some (Tensor [0] default_float [])
       | _ => concatenate_last (map flat leaves_metadata)
       end;
  Some (fl, unravel_list batch_dims leaves_metadata leaves_idx,
            unravel_list_batched batch_dims leaves_metadata leaves_idx).

(** [tree_flatten] of a dictionary of arrays: its leaves in the fixed
    order of its keys, and the keys as tree definition. *)
Definition tree_flatten (pytree : gmap string tensor) : list tensor * list string :=
  ((map_to_list pytree).*2, (map_to_list pytree).*1).

Definition tree_unflatten (treedef : list string) (leaves : list tensor)
  : gmap string tensor :=
  list_to_map (zip treedef leaves).

Definition ravel_pytree (pytree : gmap string tensor) (batch_dims : nat)
  : option (tensor * (tensor → option (gmap string tensor))
                   * (tensor → option (gmap string tensor))) :=
  let leaves := (tree_flatten pytree).1 in
  let treedef := (tree_flatten pytree).2 in
  match _ravel_list leaves batch_dims with
  | None => None
  | Some (fl, unravel_list, unravel_list_batched) =>
      Some (fl, (λ arr, tree_unflatten treedef <$> unravel_list arr),
                (λ arr, tree_unflatten treedef <$> unravel_list_batched arr))
  end.

(** *** Round trip of the raveler *)



(** The rows that [concatenate_last] lays side by side. *)
Definition parts_of (batch_dims : nat) (rt : DType) (leaves : list tensor)
  : list (nat * list elem) :=
  (λ l, (size_of (drop batch_dims (tshape l)), cast rt <$> tdata l)) <$> leaves.

Lemma size_of_app (a b : list nat) : size_of (a ++ b) = size_of a * size_of b.
Proof. induction a as [|x a IH]; simpl; [lia|]. rewrite IH. lia. Qed.



Lemma concatenate_last_cons t ts :
  concatenate_last (t :: ts)
  = let batch := removelast (tshape t) in
    let rt := result_type (tdtype <$> t :: ts) in
    if decide (Forall (λ u, tshape u ≠ [] ∧ removelast (tshape u) = batch) (t :: ts))
    then Some (Tensor (batch ++ [sum_list ((λ u, List.last (tshape u) 0) <$> t :: ts)]) rt
                 (concat_rows (size_of batch)
                    ((λ u, (List.last (tshape u) 0, cast rt <$> tdata u)) <$> t :: ts)))
    else None.
Proof. reflexivity. Qed.





Lemma ravel_list_cons l leaves bd :
  _ravel_list (l :: leaves) bd
  = fl ← concatenate_last (flat <$> (leaf_metadata bd <$> l :: leaves));
    Some (fl,
          unravel_list bd (leaf_metadata bd <$> l :: leaves)
            (cumsum (0 :: (event_size <$> (leaf_metadata bd <$> l :: leaves)))),
          unravel_list_batched bd (leaf_metadata bd <$> l :: leaves)
            (cumsum (0 :: (event_size <$> (leaf_metadata bd <$> l :: leaves))))).
Proof. reflexivity. Qed.




(** The slice of a leaf fits in [arr]: the axis exists, is at least as long
    as the leaf's event size, and the slice has as many elements as the
    shape [target] it is reshaped to. *)
Definition slice_fits (axis : nat) (arr : tensor) (e : nat) (target : list nat)
  : Prop :=
  ∃ d, tshape arr !! axis = Some d ∧ e ≤ d
       ∧ size_of target = size_of (<[axis := e]> (tshape arr)).

Lemma unravel_leaf_is_Some bd idx arr i l :
  is_Some (unravel_leaf bd idx arr (i, leaf_metadata bd l))
  ↔ slice_fits 0 arr (size_of (drop bd (tshape l))) (drop bd (tshape l)).
Proof.
  unfold unravel_leaf, dynamic_slice_in_dim, np_reshape, slice_fits.
  cbn [fst snd event_size shape dtype leaf_metadata].
  destruct (tshape arr !! 0) as [d|] eqn:Hd; cbn [mbind option_bind].
  - destruct (decide (size_of (drop bd (tshape l)) ≤ d)) as [Hle|Hle];
      cbn [mbind option_bind tshape].
    + destruct (decide (size_of (drop bd (tshape l))
                        = size_of (<[0:=size_of (drop bd (tshape l))]> (tshape arr))))
        as [Heq|Hne]; cbn [mbind option_bind].
      * split; [|by eauto]. intros _. by exists d.
      * split; [by intros [? ?]|]. intros (d' & _ & _ & Heq). done.
    + split; [by intros [? ?]|]. intros (d' & [= <-] & Hle' & _). done.
  - split; [by intros [? ?]|]. intros (d' & ? & _). done.
Qed.

Lemma unravel_leaf_batched_is_Some bd idx arr i l :
  is_Some (unravel_leaf_batched bd idx arr (i, leaf_metadata bd l))
  ↔ slice_fits bd arr (size_of (drop bd (tshape l))) (tshape l).
Proof.
  unfold unravel_leaf_batched, dynamic_slice_in_dim, np_reshape, slice_fits.
  cbn [fst snd event_size shape dtype leaf_metadata].
  destruct (tshape arr !! bd) as [d|] eqn:Hd; cbn [mbind option_bind].
  - destruct (decide (size_of (drop bd (tshape l)) ≤ d)) as [Hle|Hle];
      cbn [mbind option_bind tshape].
    + destruct (decide (size_of (tshape l)
                        = size_of (<[bd:=size_of (drop bd (tshape l))]> (tshape arr))))
        as [Heq|Hne]; cbn [mbind option_bind].
      * split; [|by eauto]. intros _. by exists d.
      * split; [by intros [? ?]|]. intros (d' & _ & _ & Heq). done.
    + split; [by intros [? ?]|]. intros (d' & [= <-] & Hle' & _). done.
  - split; [by intros [? ?]|]. intros (d' & ? & _). done.
Qed.

Lemma mapM_None_elem_of {A B} (f : A → option B) (l : list A) :
  mapM f l = None ↔ ∃ x, x ∈ l ∧ f x = None.
Proof.
  rewrite eq_None_not_Some, mapM_is_Some, Forall_forall. split.
  - intros H. induction l as [|x l IH].
    + exfalso. apply H. intros x Hx. by apply elem_of_nil in Hx.
    + destruct (f x) as [y|] eqn:Hfx.
      * destruct IH as (z & Hz & Hfz).
        { intros Hl. apply H. intros z Hz. apply elem_of_cons in Hz as [->|Hz].
          - simpl. by rewrite Hfx.
          - by apply Hl. }
        exists z. split; [by apply elem_of_cons; right|done].
      * exists x. split; [by apply elem_of_cons; left|done].
  - intros (x & Hx & Hfx) H. specialize (H x Hx). simpl in H.
    rewrite Hfx in H. by destruct H.
Qed.

Lemma unravel_list_None bd (leaves : list tensor) idx arr :
  unravel_list bd (leaf_metadata bd <$> leaves) idx arr = None
  ↔ ∃ l, l ∈ leaves
         ∧ ¬ slice_fits 0 arr (size_of (drop bd (tshape l))) (drop bd (tshape l)).
Proof.
  unfold unravel_list. rewrite mapM_None_elem_of. split.
  - intros ([i m] & Him & Hf). apply list_elem_of_lookup in Him as [j Him].
    rewrite list_lookup_imap, list_lookup_fmap in Him.
    destruct (leaves !! j) as [l|] eqn:Hl; [|done]. injection Him as <- <-.
    exists l. split; [by eapply list_elem_of_lookup_2|].
    rewrite <- unravel_leaf_is_Some, Hf. by intros [? ?].
  - intros (l & Hl & Hfit). apply list_elem_of_lookup in Hl as [i Hl].
    exists (i, leaf_metadata bd l). split.
    + apply list_elem_of_lookup. exists i.
      by rewrite list_lookup_imap, list_lookup_fmap, Hl.
    + apply eq_None_not_Some. by rewrite unravel_leaf_is_Some.
Qed.

Lemma unravel_list_batched_None bd (leaves : list tensor) idx arr :
  unravel_list_batched bd (leaf_metadata bd <$> leaves) idx arr = None
  ↔ ∃ l, l ∈ leaves
         ∧ ¬ slice_fits bd arr (size_of (drop bd (tshape l))) (tshape l).
Proof.
  unfold unravel_list_batched. rewrite mapM_None_elem_of. split.
  - intros ([i m] & Him & Hf). apply list_elem_of_lookup in Him as [j Him].
    rewrite list_lookup_imap, list_lookup_fmap in Him.
    destruct (leaves !! j) as [l|] eqn:Hl; [|done]. injection Him as <- <-.
    exists l. split; [by eapply list_elem_of_lookup_2|].
    rewrite <- unravel_leaf_batched_is_Some, Hf. by intros [? ?].
  - intros (l & Hl & Hfit). apply list_elem_of_lookup in Hl as [i Hl].
    exists (i, leaf_metadata bd l). split.
    + apply list_elem_of_lookup. exists i.
      by rewrite list_lookup_imap, list_lookup_fmap, Hl.
    + apply eq_None_not_Some. by rewrite unravel_leaf_batched_is_Some.
Qed.

Lemma ravel_list_unravels leaves bd fl un unb :
  _ravel_list leaves bd = Some (fl, un, unb) →
  un = unravel_list bd (leaf_metadata bd <$> leaves)
         (cumsum (0 :: (event_size <$> (leaf_metadata bd <$> leaves))))
  ∧ unb = unravel_list_batched bd (leaf_metadata bd <$> leaves)
            (cumsum (0 :: (event_size <$> (leaf_metadata bd <$> leaves)))).
Proof.
  unfold _ravel_list. intros H. apply bind_Some in H as (fl' & _ & H).
  by injection H as <- <- <-.
Qed.

Lemma elem_of_tree_leaves (pytree : gmap string tensor) (l : tensor) :
  l ∈ (tree_flatten pytree).1 ↔ ∃ name, pytree !! name = Some l.
Proof.
  unfold tree_flatten. cbn [fst]. rewrite list_elem_of_fmap. split.
  - intros ([name l'] & -> & Hin). exists name. by apply elem_of_map_to_list.
  - intros [name Hl]. exists (name, l). split; [done|]. by apply elem_of_map_to_list.
Qed.


(** C7 (as amended): an unravel function made by [ravel_pytree] raises exactly
    when the slice of some leaf does not fit in the array it is given; the
    size of the array along the sliced axis is not compared with the recorded
    total size. *)
Theorem unravel_raises_iff (pytree : gmap string tensor) (batch_dims : nat)
    fl unravel unravel_batched (arr : tensor) :
  ravel_pytree pytree batch_dims = Some (fl, unravel, unravel_batched) →
  (unravel arr = None
   ↔ ∃ name l, pytree !! name = Some l
        ∧ ¬ slice_fits 0 arr (size_of (drop batch_dims (tshape l)))
              (drop batch_dims (tshape l)))
  ∧ (unravel_batched arr = None
     ↔ ∃ name l, pytree !! name = Some l
          ∧ ¬ slice_fits batch_dims arr (size_of (drop batch_dims (tshape l)))
                (tshape l)).
Proof.
  unfold ravel_pytree.
  destruct (_ravel_list (tree_flatten pytree).1 batch_dims)
    as [[[fl' un] unb]|] eqn:Hr; [|done].
  intros [= <- <- <-]. apply ravel_list_unravels in Hr as [-> ->].
  split.
  - rewrite fmap_None, unravel_list_None. split.
    + intros (l & Hl & Hfit). apply elem_of_tree_leaves in Hl as [name Hl]. eauto.
    + intros (name & l & Hl & Hfit). exists l. split; [|done].
      apply elem_of_tree_leaves. eauto.
  - rewrite fmap_None, unravel_list_batched_None. split.
    + intros (l & Hl & Hfit). apply elem_of_tree_leaves in Hl as [name Hl]. eauto.
    + intros (name & l & Hl & Hfit). exists l. split; [|done].
      apply elem_of_tree_leaves. eauto.
Qed.

(** *** Further properties of the raveler *)

Lemma flat_batch_ok bd (x : tensor) :
  tshape (flat (leaf_metadata bd x)) ≠ []
  ∧ removelast (tshape (flat (leaf_metadata bd x))) = take bd (tshape x).
Proof.
  simpl. split; [by destruct (take bd (tshape x))|by rewrite removelast_last].
Qed.

Lemma concatenate_flat_batch bd batch l leaves :
  Forall (λ x, take bd (tshape x) = batch) (l :: leaves) →
  concatenate_last (flat <$> (leaf_metadata bd <$> (l :: leaves)))
  = Some (Tensor (batch ++ [sum_list (event_size <$> (leaf_metadata bd <$> (l :: leaves)))])
            (result_type (tdtype <$> (l :: leaves)))
            (concat_rows (size_of batch)
               (parts_of bd (result_type (tdtype <$> (l :: leaves))) (l :: leaves)))).
Proof.
  intros H.
  rewrite (fmap_cons (leaf_metadata bd)), (fmap_cons flat), concatenate_last_cons.
  rewrite <- (fmap_cons flat), <- (fmap_cons (leaf_metadata bd)).
  destruct (flat_batch_ok bd l) as [_ Hb]. rewrite Hb. clear Hb.
  apply Forall_cons in H as H'. destruct H' as [Hl _]. rewrite Hl. clear Hl.
  cbv zeta.
  assert (Hdt : tdtype <$> (flat <$> (leaf_metadata bd <$> (l :: leaves)))
                = tdtype <$> (l :: leaves)).
  { by rewrite <- !list_fmap_compose. }
  rewrite Hdt. clear Hdt.
  generalize (result_type (tdtype <$> l :: leaves)). intros rt.
  revert H. generalize (l :: leaves). clear l leaves. intros leaves H.
  rewrite decide_True.
  - f_equal. f_equal.
    + f_equal. f_equal. f_equal. rewrite <- !list_fmap_compose. apply list_fmap_ext.
      intros i x _. simpl. by rewrite last_last.
    + f_equal. unfold parts_of. rewrite <- !list_fmap_compose. apply list_fmap_ext.
      intros i x _. simpl. by rewrite last_last.
  - apply Forall_fmap, Forall_fmap. eapply Forall_impl; [exact H|].
    intros x Hx. destruct (flat_batch_ok bd x) as [Hne Hrl]. split; [done|].
    simpl in *. by rewrite Hrl.
Qed.



(** X2: for an empty dictionary [ravel_pytree] returns an array of shape
    [[0]] without data, and both unravel functions return the empty
    dictionary for every array they are given. *)
Theorem ravel_pytree_empty (batch_dims : nat) :
  ∃ unravel unravel_batched,
    ravel_pytree ∅ batch_dims
    = Some (Tensor [0] default_float [], unravel, unravel_batched)
    ∧ ∀ arr, unravel arr = Some ∅ ∧ unravel_batched arr = Some ∅.
Proof.
  unfold ravel_pytree, tree_flatten. cbn [fst snd]. rewrite map_to_list_empty.
  eexists _, _. split; [reflexivity|]. intros arr. by split.
Qed.

(** Leaves whose data fill their shape and that share the leading axes
    [batch]. *)
Definition batched_pytree (batch_dims : nat) (batch : list nat)
    (pytree : gmap string tensor) : Prop :=
  ∀ n l, pytree !! n = Some l →
    length (tdata l) = size_of (tshape l) ∧ take batch_dims (tshape l) = batch.

Lemma batched_leaves bd batch pytree :
  batched_pytree bd batch pytree →
  Forall (λ l, length (tdata l) = size_of (tshape l) ∧ take bd (tshape l) = batch)
    (tree_flatten pytree).1.
Proof.
  intros H. apply Forall_forall. intros l Hl.
  apply elem_of_tree_leaves in Hl as [n Hl]. by eapply H.
Qed.


Lemma mapM_imap_Forall2 {A B C} (g : A → C) (f : nat * C → option B)
    (P : A → B → Prop) (l : list A) (ys : list B) :
  (∀ i x y, f (i, g x) = Some y → P x y) →
  mapM f (imap pair (g <$> l)) = Some ys → Forall2 P l ys.
Proof.
  intros Hf Hm. apply mapM_Some in Hm.
  apply Forall2_same_length_lookup_2.
  - apply Forall2_length in Hm. by rewrite length_imap, length_fmap in Hm.
  - intros i x y Hx Hy. apply (Hf i).
    rewrite Forall2_lookup in Hm. specialize (Hm i).
    rewrite list_lookup_imap, list_lookup_fmap, Hx, Hy in Hm. simpl in Hm.
    by inversion Hm.
Qed.

(** Unflattening a list that matches the leaves one by one. *)
Lemma tree_unflatten_Forall2 (P : tensor → tensor → Prop)
    (pytree : gmap string tensor) (ys : list tensor) :
  Forall2 P (tree_flatten pytree).1 ys →
  dom (tree_unflatten (tree_flatten pytree).2 ys) = dom pytree
  ∧ ∀ n l, pytree !! n = Some l →
      ∃ l', tree_unflatten (tree_flatten pytree).2 ys !! n = Some l' ∧ P l l'.
Proof.
  unfold tree_unflatten, tree_flatten. cbn [fst snd]. intros H2.
  assert (Hlen : length (map_to_list pytree).*1 = length ys).
  { apply Forall2_length in H2. by rewrite !length_fmap in *. }
  assert (Hfst : (zip (map_to_list pytree).*1 ys).*1 = (map_to_list pytree).*1)
    by (apply fst_zip; lia).
  split.
  - rewrite dom_list_to_map_L, Hfst.
    rewrite <- (list_to_map_to_list pytree) at 2. by rewrite dom_list_to_map_L.
  - intros n l Hl. apply elem_of_map_to_list in Hl.
    apply list_elem_of_lookup in Hl as [i Hi].
    assert (Hk : (map_to_list pytree).*1 !! i = Some n)
      by (by rewrite list_lookup_fmap, Hi).
    assert (Hv : (map_to_list pytree).*2 !! i = Some l)
      by (by rewrite list_lookup_fmap, Hi).
    destruct (Forall2_lookup_l _ _ _ _ _ H2 Hv) as (l' & Hy & HP).
    exists l'. split; [|done].
    apply elem_of_list_to_map_1.
    + rewrite Hfst. apply NoDup_fst_map_to_list.
    + apply list_elem_of_lookup. exists i.
      rewrite lookup_zip_with, Hk. cbn [mbind option_bind]. by rewrite Hy.
Qed.

Lemma unravel_leaf_shape bd idx arr i l y :
  unravel_leaf bd idx arr (i, leaf_metadata bd l) = Some y →
  tshape y = drop bd (tshape l) ∧ tdtype y = canonicalize_dtype (tdtype l).
Proof.
  unfold unravel_leaf, np_reshape. cbn [fst snd event_size shape dtype leaf_metadata].
  intros H. apply bind_Some in H as (s1 & _ & H).
  case_decide; [|done]. cbn [mbind option_bind] in H. by injection H as <-.
Qed.

Lemma unravel_leaf_batched_shape bd idx arr i l y :
  unravel_leaf_batched bd idx arr (i, leaf_metadata bd l) = Some y →
  tshape y = tshape l ∧ tdtype y = canonicalize_dtype (tdtype l).
Proof.
  unfold unravel_leaf_batched, np_reshape.
  cbn [fst snd event_size shape dtype leaf_metadata].
  intros H. apply bind_Some in H as (s1 & _ & H).
  case_decide; [|done]. cbn [mbind option_bind] in H. by injection H as <-.
Qed.

(** X4: whatever array an unravel function is given, the dictionary it
    returns has the names of the raveled dictionary, and every leaf has the
    recorded shape (without the batch axes for the single function) and the
    recorded, canonical dtype. *)
Theorem unravel_structure (pytree : gmap string tensor) (batch_dims : nat)
    fl unravel unravel_batched (arr : tensor) (result : gmap string tensor) :
  ravel_pytree pytree batch_dims = Some (fl, unravel, unravel_batched) →
  (unravel arr = Some result →
   dom result = dom pytree
   ∧ ∀ n l, pytree !! n = Some l →
       ∃ l', result !! n = Some l'
         ∧ tshape l' = drop batch_dims (tshape l)
         ∧ tdtype l' = canonicalize_dtype (tdtype l))
  ∧ (unravel_batched arr = Some result →
     dom result = dom pytree
     ∧ ∀ n l, pytree !! n = Some l →
         ∃ l', result !! n = Some l'
           ∧ tshape l' = tshape l
           ∧ tdtype l' = canonicalize_dtype (tdtype l)).
Proof.
  unfold ravel_pytree.
  destruct (_ravel_list (tree_flatten pytree).1 batch_dims)
    as [[[fl' un] unb]|] eqn:Hr; [|done].
  intros [= <- <- <-]. apply ravel_list_unravels in Hr as [-> ->].
  split.
  - intros H. apply fmap_Some in H as (ys & Hys & ->).
    apply tree_unflatten_Forall2. unfold unravel_list in Hys.
    eapply mapM_imap_Forall2; [|exact Hys].
    intros i x y Hy. by eapply unravel_leaf_shape.
  - intros H. apply fmap_Some in H as (ys & Hys & ->).
    apply tree_unflatten_Forall2. unfold unravel_list_batched in Hys.
    eapply mapM_imap_Forall2; [|exact Hys].
    intros i x y Hy. by eapply unravel_leaf_batched_shape.
Qed.

Lemma dynamic_slice_well_formed arr start size axis s1 :
  length (tdata arr) = size_of (tshape arr) →
  dynamic_slice_in_dim arr start size axis = Some s1 →
  length (tdata s1) = size_of (tshape s1).
Proof.
  unfold dynamic_slice_in_dim. intros Hwf H.
  destruct (tshape arr !! axis) as [d|] eqn:Hd; [|done].
  case_decide as Hle; [|done]. injection H as <-. cbn [tshape tdata].
  rewrite (size_of_insert _ _ _ _ Hd), length_slice_rows.
  - reflexivity.
  - by rewrite Hwf, (size_of_lookup _ _ _ Hd).
  - nia.
Qed.

Lemma unravel_leaf_well_formed bd idx arr im y :
  length (tdata arr) = size_of (tshape arr) →
  unravel_leaf bd idx arr im = Some y ∨ unravel_leaf_batched bd idx arr im = Some y →
  length (tdata y) = size_of (tshape y).
Proof.
  unfold unravel_leaf, unravel_leaf_batched, np_reshape. intros Hwf [H|H];
    apply bind_Some in H as (s1 & Hs & H);
    apply (dynamic_slice_well_formed _ _ _ _ _ Hwf) in Hs;
    (case_decide as Heq; [|done]); cbn [mbind option_bind] in H;
    injection H as <-; cbn [tshape tdata astype];
    rewrite length_fmap; congruence.
Qed.

(** X5: when an unravel function is given an array whose data fill its
    shape, the data of every leaf it returns fill the shape of that leaf. *)
Theorem unravel_well_formed (pytree : gmap string tensor) (batch_dims : nat)
    fl unravel unravel_batched (arr : tensor) (result : gmap string tensor) :
  ravel_pytree pytree batch_dims = Some (fl, unravel, unravel_batched) →
  length (tdata arr) = size_of (tshape arr) →
  unravel arr = Some result ∨ unravel_batched arr = Some result →
  ∀ n l, result !! n = Some l → length (tdata l) = size_of (tshape l).
Proof.
  unfold ravel_pytree.
  destruct (_ravel_list (tree_flatten pytree).1 batch_dims)
    as [[[fl' un] unb]|] eqn:Hr; [|done].
  intros [= <- <- <-] Hwf. apply ravel_list_unravels in Hr as [-> ->].
  assert (Hall : ∀ ys,
    unravel_list batch_dims (leaf_metadata batch_dims <$> (tree_flatten pytree).1)
      (cumsum (0 :: (event_size <$> (leaf_metadata batch_dims <$> (tree_flatten pytree).1))))
      arr = Some ys
    ∨ unravel_list_batched batch_dims (leaf_metadata batch_dims <$> (tree_flatten pytree).1)
        (cumsum (0 :: (event_size <$> (leaf_metadata batch_dims <$> (tree_flatten pytree).1))))
        arr = Some ys →
    Forall (λ y, length (tdata y) = size_of (tshape y)) ys).
  { intros ys [H|H]; apply mapM_Some in H; apply Forall_forall; intros y Hy;
      apply list_elem_of_lookup in Hy as [i Hy];
      destruct (Forall2_lookup_r _ _ _ _ _ H Hy) as (im & _ & Him);
      eapply unravel_leaf_well_formed; eauto. }
  intros Hres n l Hl.
  assert (∃ ys, result = tree_unflatten (tree_flatten pytree).2 ys
                ∧ Forall (λ y, length (tdata y) = size_of (tshape y)) ys)
    as (ys & -> & Hys).
  { destruct Hres as [H|H]; apply fmap_Some in H as (ys & Hys & ->);
      exists ys; split; try done; apply Hall; eauto. }
  unfold tree_unflatten in Hl. apply elem_of_list_to_map_2 in Hl.
  apply elem_of_zip_r in Hl. rewrite Forall_forall in Hys. by apply Hys.
Qed.

Lemma elem_le_sum_list (l : list nat) (x : nat) : x ∈ l → x ≤ sum_list l.
Proof.
  induction l as [|y l IH]; [by intros ?%elem_of_nil|].
  intros [->|H]%elem_of_cons; simpl; [lia|]. specialize (IH H). lia.
Qed.

(** X6: the batched unravel function accepts every array that has the
    shape of the flat array, whatever its data; the leaves must share their
    leading [batch_dims] axes and have that many. *)
Theorem unravel_batched_accepts (pytree : gmap string tensor) (batch_dims : nat)
    (batch : list nat) fl unravel unravel_batched (arr : tensor) :
  batched_pytree batch_dims batch pytree →
  (∀ n l, pytree !! n = Some l → batch_dims ≤ length (tshape l)) →
  ravel_pytree pytree batch_dims = Some (fl, unravel, unravel_batched) →
  tshape arr = tshape fl →
  is_Some (unravel_batched arr).
Proof.
  intros Hb Hrank. apply batched_leaves in Hb. unfold ravel_pytree.
  destruct (_ravel_list (tree_flatten pytree).1 batch_dims)
    as [[[fl' un] unb]|] eqn:Hr; [|done].
  intros [= <- <- <-] Hshape. apply ravel_list_unravels in Hr as Hun.
  destruct Hun as [_ ->].
  apply not_eq_None_Some. intros Hnone. apply fmap_None in Hnone.
  apply unravel_list_batched_None in Hnone as (l & Hl & Hfit). apply Hfit. clear Hfit.
  destruct ((tree_flatten pytree).1) as [|l0 leaves] eqn:Hleaves;
    [by apply elem_of_nil in Hl|].
  rewrite ravel_list_cons, (concatenate_flat_batch batch_dims batch) in Hr.
  2:{ eapply Forall_impl; [exact Hb|]. by intros x [_ Hx]. }
  cbn [mbind option_bind] in Hr.
  assert (Hfl : tshape fl'
                = batch ++ [sum_list (event_size <$> (leaf_metadata batch_dims <$> l0 :: leaves))])
    by (by inversion Hr).
  clear Hr. rewrite Hfl in Hshape. clear Hfl.
  rewrite Forall_forall in Hb. destruct (Hb l Hl) as [Hwf Hbatch].
  assert (Hbd : length batch = batch_dims).
  { rewrite <- Hbatch, length_take.
    assert (Hin : l ∈ (tree_flatten pytree).1) by (by rewrite Hleaves).
    apply elem_of_tree_leaves in Hin as [n Hn]. specialize (Hrank n l Hn). lia. }
  unfold slice_fits. rewrite Hshape. eexists. split.
  { rewrite lookup_app_r by lia. by rewrite Hbd, Nat.sub_diag. }
  split.
  - apply elem_le_sum_list. rewrite <- list_fmap_compose.
    apply list_elem_of_fmap. by exists l.
  - rewrite insert_app_r_alt by lia. rewrite Hbd, Nat.sub_diag. cbn [insert list_insert].
    rewrite size_of_app. rewrite <- (take_drop batch_dims (tshape l)) at 1.
    rewrite size_of_app, Hbatch. simpl. lia.
Qed.






End Raveler.

(** ** Concrete arrays: integer elements and three dtypes *)

Inductive np_dtype := bool_ | int32 | float32.

(** dtype promotion of [np.concatenate] on these three dtypes *)
Definition promote_types (a b : np_dtype) : np_dtype :=
  match a, b with
  | float32, _ | _, float32 => float32
  | int32, _ | _, int32 => int32
  | bool_, bool_ => bool_
  end.

Definition np_result_type (ds : list np_dtype) : np_dtype := foldr promote_types bool_ ds.

(** conversion of a (small) integer value between the three dtypes *)
Definition np_cast (d : np_dtype) (v : Z) : Z :=
  match d with
  | bool_ => if decide (v = 0%Z) then 0%Z else 1%Z
  | _ => v
  end.

Definition ravel_pytreeZ :=
  ravel_pytree (elem := Z) (λ d : np_dtype, d) np_result_type float32 np_cast.


(** Two sites of two entries each. *)
Definition two_leaves : gmap string (tensor (elem := Z) (DType := np_dtype)) :=
  {[ "a" := Tensor [2] int32 [5%Z; 7%Z]; "b" := Tensor [2] int32 [1%Z; 2%Z] ]}.



(** An array one entry longer than the four entries recorded for
    [two_leaves], and one that is one entry shorter. *)
Definition too_long : tensor (elem := Z) (DType := np_dtype) :=
  Tensor [5] int32 [1%Z; 2%Z; 3%Z; 4%Z; 9%Z].

Definition too_short : tensor (elem := Z) (DType := np_dtype) :=
  Tensor [3] int32 [1%Z; 2%Z; 3%Z].

Lemma unravel_raises_iff_witness :
  ∃ fl unravel unravel_batched,
    ravel_pytreeZ two_leaves 0 = Some (fl, unravel, unravel_batched)
    ∧ (unravel too_long = None
       ↔ ∃ name l, two_leaves !! name = Some l
            ∧ ¬ slice_fits 0 too_long (size_of (drop 0 (tshape l))) (drop 0 (tshape l)))
    ∧ (unravel_batched too_long = None
       ↔ ∃ name l, two_leaves !! name = Some l
            ∧ ¬ slice_fits 0 too_long (size_of (drop 0 (tshape l))) (tshape l)).
Proof.
  eexists _, _, _. split; [vm_compute; reflexivity|].
  eapply (unravel_raises_iff (λ d : np_dtype, d) np_result_type float32 np_cast
            two_leaves 0).
  vm_compute. reflexivity.
Defined.

(** C7 as stated fails: the flat array of [two_leaves] has four entries, yet
    both unravel functions accept an array of five entries, dropping the
    last one, and an array of three entries, where the second leaf is read
    from a start offset moved back by one. *)
Lemma unravel_mismatch_counterexample :
  ∃ fl unravel unravel_batched,
    ravel_pytreeZ two_leaves 0 = Some (fl, unravel, unravel_batched)
    ∧ tshape fl = [4] ∧ tshape too_long = [5] ∧ tshape too_short = [3]
    ∧ unravel too_long
      = Some {[ "a" := Tensor [2] int32 [1%Z; 2%Z]; "b" := Tensor [2] int32 [3%Z; 4%Z] ]}
    ∧ unravel_batched too_long
      = Some {[ "a" := Tensor [2] int32 [1%Z; 2%Z]; "b" := Tensor [2] int32 [3%Z; 4%Z] ]}
    ∧ unravel too_short
      = Some {[ "a" := Tensor [2] int32 [1%Z; 2%Z]; "b" := Tensor [2] int32 [2%Z; 3%Z] ]}
    ∧ unravel too_long ≠ None ∧ unravel_batched too_long ≠ None
    ∧ unravel too_short ≠ None.
Proof.
  eexists _, _, _. split; [vm_compute; reflexivity|].
  repeat split; try (vm_compute; reflexivity); vm_compute; discriminate.
Qed.

(** *** Instances of the further properties *)

(** Two sites for three particles: a vector of two entries and a scalar
    per particle. *)
Definition three_particles : gmap string (tensor (elem := Z) (DType := np_dtype)) :=
  {[ "loc" := Tensor [3; 2] int32 [1%Z; 2%Z; 3%Z; 4%Z; 5%Z; 6%Z];
     "scale" := Tensor [3] int32 [7%Z; 8%Z; 9%Z] ]}.

(** A gradient for [three_particles]: any data in the shape of its flat array. *)
Definition three_gradients : tensor (elem := Z) (DType := np_dtype) :=
  Tensor [3; 3] int32 [0%Z; 1%Z; 0%Z; 1%Z; 0%Z; 1%Z; 0%Z; 1%Z; 0%Z].

Lemma three_particles_lookup n l :
  three_particles !! n = Some l →
  l = Tensor [3; 2] int32 [1%Z; 2%Z; 3%Z; 4%Z; 5%Z; 6%Z]
  ∨ l = Tensor [3] int32 [7%Z; 8%Z; 9%Z].
Proof.
  unfold three_particles. intros H.
  apply lookup_insert_Some in H as [[_ <-]|[_ H]]; [by left|].
  apply lookup_singleton_Some in H as [_ <-]. by right.
Qed.

Lemma three_particles_batched : batched_pytree 1 [3] three_particles.
Proof. intros n l [->| ->]%three_particles_lookup; by split. Qed.

Lemma three_particles_rank n l :
  three_particles !! n = Some l → 1 ≤ length (tshape l).
Proof. intros [->| ->]%three_particles_lookup; simpl; lia. Qed.



Lemma unravel_structure_witness :
  ∃ fl unravel unravel_batched result,
    ravel_pytreeZ three_particles 1 = Some (fl, unravel, unravel_batched)
    ∧ unravel_batched three_gradients = Some result
    ∧ dom result = dom three_particles
    ∧ ∀ n l, three_particles !! n = Some l →
        ∃ l', result !! n = Some l' ∧ tshape l' = tshape l ∧ tdtype l' = tdtype l.
Proof.
  eexists _, _, _, _. split; [vm_compute; reflexivity|].
  split; [vm_compute; reflexivity|].
  eapply (unravel_structure (λ d : np_dtype, d) np_result_type float32 np_cast
            three_particles 1 _ _ _ three_gradients).
  - vm_compute. reflexivity.
  - vm_compute. reflexivity.
Defined.

Lemma unravel_well_formed_witness :
  ∃ fl unravel unravel_batched result,
    ravel_pytreeZ three_particles 1 = Some (fl, unravel, unravel_batched)
    ∧ unravel_batched three_gradients = Some result
    ∧ ∀ n l, result !! n = Some l → length (tdata l) = size_of (tshape l).
Proof.
  eexists _, _, _, _. split; [vm_compute; reflexivity|].
  split; [vm_compute; reflexivity|].
  eapply (unravel_well_formed (λ d : np_dtype, d) np_result_type float32 np_cast
            three_particles 1 _ _ _ three_gradients).
  - vm_compute. reflexivity.
  - reflexivity.
  - right. vm_compute. reflexivity.
Defined.

(** What [ravel_pytree] returns for [three_particles]. *)
Definition three_raveled :=
  default (Tensor [] float32 [], λ _, None, λ _, None) (ravel_pytreeZ three_particles 1).

Lemma three_raveled_eq :
  ravel_pytreeZ three_particles 1
  = Some (three_raveled.1.1, three_raveled.1.2, three_raveled.2).
Proof. vm_compute. reflexivity. Qed.

Lemma unravel_batched_accepts_witness :
  tshape three_gradients = tshape three_raveled.1.1
  ∧ is_Some (three_raveled.2 three_gradients).
Proof.
  split; [reflexivity|].
  apply (unravel_batched_accepts (λ d : np_dtype, d) np_result_type float32 np_cast
           three_particles 1 [3] three_raveled.1.1 three_raveled.1.2 three_raveled.2
           three_gradients three_particles_batched three_particles_rank
           three_raveled_eq).
  reflexivity.
Defined.


End Util.

(** ** The SVGD class of [stein.py] *)

Module Stein.

(** Python's [a, b = xs] and [a, b, c = xs]: the number of items must match. *)
Definition unpack2 {A} (xs : list A) : option (A * A) :=
  match xs with
  | [a; b] => Some (a, b)
  | _ => None
  end.

Definition unpack3 {A} (xs : list A) : option (A * A * A) :=
  match xs with
  | [a; b; c] => Some (a, b, c)
  | _ => None
  end.

(** The items of a string, as Python iterates over it: its characters, each
    a string of length one. *)
Fixpoint chars_of (s : string) : gset string :=
  match s with
  | EmptyString => ∅
  | String c s' => {[ String c EmptyString ]} ∪ chars_of s'
  end.

Inductive site_type := param | sample.

#[global] Instance site_type_eq_dec : EqDecision site_type.
Proof. solve_decision. Defined.

Section SVGD.
(** Scalars of the arrays. *)
Context {R : Type}.
Variables (rO rI : R) (radd rmul rsub : R → R → R) (ropp : R → R).
(** [np.mean] of a vector *)
Variable mean : list R → R.
(** Random keys and [jax.random.split(key, num)] *)
Context {key : Type}.
Variable split : key → nat → list key.
(** Parameter arrays: negation, and the entry [i] along the leading axis,
    which [jax.vmap] hands to the mapped function. *)
Context {T : Type}.
Variable tneg : T → T.
Variable tindex : nat → T → T.
(** Call arguments [(args, kwargs)], and [**kwargs, **self.static_kwargs],
    which raises when a keyword is given twice. *)
Context {Args : Type}.
Variable with_static_kwargs : Args → option Args.
(** Constraints and [biject_to]. *)
Context {Constraint : Type}.
Variable real : Constraint.

Record Transform := {
  call : T → T;
  inv : T → T
}.

Variable biject_to : Constraint → Transform.

(** A site of a trace: [site['name']], [site['type']], [site['value']] and
    [site['kwargs'].get('constraint')]. *)
Record site := Site {
  name : string;
  type : site_type;
  value : T;
  constraint : option Constraint
}.

(** The model and the guide: their traces under a seed, the guide trace
    that [log_density] returns, and the log density of the seeded model
    replayed on a guide trace. *)
Context {Trace : Type}.
Variable model_get_trace : key → Args → list site.
Variable guide_get_trace : key → Args → list site.
Variable guide_log_density_trace : key → Args → gmap string T → Trace.
Variable model_log_density : key → Trace → Args → gmap string T → R.
(** [AutoDelta.find_params], which leaves the initial values in
    [guide.init_params]. *)
Variable find_params : key → Args → gmap string T.
(** The optimizer. *)
Context {OptimState : Type}.
Variable optim_init : gmap string T → OptimState.
Variable optim_get_params : OptimState → gmap string T.
Variable optim_update : gmap string T → OptimState → OptimState.
(** Automatic differentiation: the gradient of [jax.value_and_grad] with
    respect to the particle matrix, of [jax.grad] with respect to a
    dictionary, and of [jax.grad] with respect to one particle. *)
Variable grad_particles :
  (list (list R) → option (list R)) → list (list R) → list (list R).
Variable grad_dict :
  (gmap string T → option (list R)) → gmap string T → gmap string T.
Variable grad_vector : (list R → R) → list R → list R.
(** [ravel_pytree(pytree, batch_dims=1)] of [numpyro/util.py], which is not
    part of the sources: the matrix of monolithic particles and the function
    that unravels such a matrix. *)
Variable ravel_pytree :
  gmap string T → list (list R) * (list (list R) → gmap string T).

Record SVGDState := mkSVGDState {
  optim_state : OptimState;
  rng_key : key
}.

Record SVGD := mkSVGD {
  log_kernel_fn : list (list R) → list R → list R → R;
  num_stein_particles : nat;
  num_loss_particles : nat;
  guide_param_names : option (gset string);
  constrain_fn : option (gmap string T → gmap string T)
}.

(** [SVGD.__init__]; [guide_is_AutoDelta] is the asserted
    [isinstance(guide, AutoDelta)]. *)
Definition __init__ (guide_is_AutoDelta : bool)
    (log_kernel_fn : list (list R) → list R → list R → R)
    (num_stein_particles num_loss_particles : nat) : option SVGD :=
  if guide_is_AutoDelta
  then Some (mkSVGD log_kernel_fn num_stein_particles num_loss_particles None None)
  else None.

(** [{p: v for p, v in d.items() if p not in names}]: the test [in] raises
    on [None], and is not evaluated for an empty dictionary. *)
Definition items_not_in (names : option (gset string)) (d : gmap string T)
  : option (gmap string T) :=
  if decide (d = ∅) then Some ∅ else
  match names with
  | None => None
  | Some s => Some (filter (λ pv, pv.1 ∉ s) d)
  end.

(** [{p: v for p, v in d.items() if p in names}] *)
Definition items_in (names : option (gset string)) (d : gmap string T)
  : option (gmap string T) :=
  if decide (d = ∅) then Some ∅ else
  match names with
  | None => None
  | Some s => Some (filter (λ pv, pv.1 ∈ s) d)
  end.

(** [self.constrain_fn(params)] *)
Definition call_constrain_fn (self : SVGD) (params : gmap string T)
  : option (gmap string T) :=
  match constrain_fn self with
  | None => None
  | Some c => Some (c params)
  end.

(** Vectors and matrices of scalars. *)
Definition vadd (u v : list R) : list R := zip_with radd u v.
Definition vscale (a : R) (v : list R) : list R := rmul a <$> v.
(** [np.sum(rows, axis=0)] for rows of length [D] *)
Definition sum_axis0 (D : nat) (rows : list (list R)) : list R :=
  foldr vadd (replicate D rO) rows.

(** [single_particle_ljp], the inner function of [log_joint_prob]. *)
Definition single_particle_ljp (args : Args) (params : gmap string T)
    (rng_key : key) : option R :=
  seeds ← unpack2 (split rng_key 2);
  let model_seed := seeds.1 in
  let guide_seed := seeds.2 in
  let guide_trace := guide_log_density_trace guide_seed args params in
  Some (model_log_density model_seed guide_trace args params).

(** [log_joint_prob]; in [{**model_params, **guide_params}] the guide's
    entry wins. *)
Definition log_joint_prob (self : SVGD) (args : Args) (rng_key : key)
    (model_params guide_params : gmap string T) : option R :=
  let params := guide_params ∪ model_params in
  if decide (num_loss_particles self = 1)
  then single_particle_ljp args params rng_key
  else
    let rng_keys := split rng_key (num_loss_particles self) in
    ljps ← mapM (single_particle_ljp args params) rng_keys;
    Some (mean ljps).

(** [jfp_fn]: [jax.vmap] over the keys and over the leading axis of every
    guide parameter. *)
Definition jfp_fn (self : SVGD) (args : Args) (rks : list key)
    (mps gps : gmap string T) : option (list R) :=
  mapM (λ irk : nat * key,
          log_joint_prob self args irk.2 mps (tindex irk.1 <$> gps))
       (imap pair rks).

(** [jax.value_and_grad(f)(x)] and [jax.grad(f)(x)] evaluate [f] at [x]. *)
Definition value_and_grad (f : list (list R) → option (list R)) (x : list (list R))
  : option (list R * list (list R)) :=
  v ← f x; Some (v, grad_particles f x).

Definition grad (f : gmap string T → option (list R)) (x : gmap string T)
  : option (gmap string T) :=
  _ ← f x; Some (grad_dict f x).

(** [jax.vmap] of a function of two arguments over two arrays, which must
    have as many rows. *)
Definition vmap2 {A B C} (f : A → B → C) (xs : list A) (ys : list B)
  : option (list C) :=
  if decide (length xs = length ys) then Some (zip_with f xs ys) else None.

(** Lines 73 to 75 of [_svgd_loss_and_grads]. *)
Definition attractive_force (log_kernel : list R → list R → R)
    (guide_particles particle_ljp_grads : list (list R)) : option (list (list R)) :=
  vmap2 (λ x x_ljp_grad,
           sum_axis0 (length x_ljp_grad)
             ((λ y, vscale (log_kernel x y) x_ljp_grad) <$> guide_particles))
        guide_particles particle_ljp_grads.

Definition repulsive_force (log_kernel : list R → list R → R)
    (guide_particles : list (list R)) : list (list R) :=
  (λ x, sum_axis0 (length x)
          ((λ y, grad_vector (log_kernel x) y) <$> guide_particles))
    <$> guide_particles.

Definition particle_grads (log_kernel : list R → list R → R)
    (guide_particles particle_ljp_grads : list (list R)) : option (list (list R)) :=
  attractive ← attractive_force log_kernel guide_particles particle_ljp_grads;
  Some (zip_with vadd attractive (repulsive_force log_kernel guide_particles)).



Definition _svgd_loss_and_grads (self : SVGD) (rng_key : key)
    (unconstr_params : gmap string T) (args : Args)
  : option (list R * gmap string T) :=
  model_uparams ← items_not_in (guide_param_names self) unconstr_params;
  guide_uparams ← items_in (guide_param_names self) unconstr_params;
  let guide_particles := (ravel_pytree guide_uparams).1 in
  let unravel_pytree := (ravel_pytree guide_uparams).2 in
  let rng_keys := split rng_key (num_stein_particles self) in
  lg ← value_and_grad
         (λ ps, mps ← call_constrain_fn self model_uparams;
                gps ← call_constrain_fn self (unravel_pytree ps);
                jfp_fn self args rng_keys mps gps)
         guide_particles;
  let loss : list R := lg.1 in
  let particle_ljp_grads : list (list R) := lg.2 in
  model_param_grads ←
    grad (λ mps, cmps ← call_constrain_fn self mps;
                 cgps ← call_constrain_fn self guide_uparams;
                 jfp_fn self args rng_keys cmps cgps)
         model_uparams;
  let log_kernel := log_kernel_fn self guide_particles in
  forces ← particle_grads log_kernel guide_particles particle_ljp_grads;
  let guide_param_grads := unravel_pytree forces in
  let res_grads := tneg <$> (guide_param_grads ∪ model_param_grads) in
  Some (ropp <$> loss, res_grads).

(** The body of the loop of [init] for one site. *)
Definition init_site (model_trace : list site) (init_params : gmap string T)
    (acc : gmap string T * gmap string Transform * gset string) (s : site)
  : gmap string T * gmap string Transform * gset string :=
  let '(params, inv_transforms, guide_param_names) := acc in
  match type s with
  | param =>
      let transform := biject_to (default real (constraint s)) in
      let pval := default (value s) (init_params !! name s) in
      (<[name s := inv transform pval]> params,
       <[name s := transform]> inv_transforms,
       if decide (name s ∈ name <$> model_trace)
       then guide_param_names
       else guide_param_names ∪ chars_of (name s))
  | sample => acc
  end.

(** [transform_fn(inv_transforms, params)] of NumPyro *)
Definition transform_fn (transforms : gmap string Transform)
    (params : gmap string T) : gmap string T :=
  map_imap (λ k v, Some (match transforms !! k with
                         | Some t => call t v
                         | None => v
                         end)) params.

(** [init] assigns two fields of the object, so it returns the object too. *)
Definition init (self : SVGD) (rng_key : key) (args : Args)
  : option (SVGD * SVGDState) :=
  ks ← unpack3 (split rng_key 3);
  let '(rng_key, model_seed, guide_seed) := ks in
  args' ← with_static_kwargs args;
  let guide_trace := guide_get_trace guide_seed args' in
  let model_trace := model_get_trace model_seed args' in
  kp ← unpack2 (split rng_key (1 + num_stein_particles self));
  let '(rng_key, particle_seeds) := kp in
  let init_params := find_params particle_seeds args' in
  let '(params, inv_transforms, names) :=
    foldl (init_site model_trace init_params) (∅, ∅, ∅)
      (model_trace ++ guide_trace) in
  Some (mkSVGD (log_kernel_fn self) (num_stein_particles self)
          (num_loss_particles self) (Some names)
          (Some (transform_fn inv_transforms)),
        mkSVGDState (optim_init params) rng_key).

Definition get_params (self : SVGD) (state : SVGDState) : option (gmap string T) :=
  call_constrain_fn self (optim_get_params (optim_state state)).

Definition update (self : SVGD) (state : SVGDState) (args : Args)
  : option (SVGDState * list R) :=
  ks ← unpack2 (split (rng_key state) 2);
  let '(rng_key, rng_key_step) := ks in
  let params := optim_get_params (optim_state state) in
  args' ← with_static_kwargs args;
  lg ← _svgd_loss_and_grads self rng_key_step params args';
  let '(loss_val, grads) := lg in
  let optim_state := optim_update grads (optim_state state) in
  Some (mkSVGDState optim_state rng_key, loss_val).

Definition evaluate (self : SVGD) (state : SVGDState) (args : Args)
  : option (list R) :=
  ks ← unpack2 (split (rng_key state) 2);
  let rng_key_eval := ks.2 in
  params ← get_params self state;
  args' ← with_static_kwargs args;
  lg ← _svgd_loss_and_grads self rng_key_eval params args';
  Some lg.1.

(** *** What the operations need from [init] *)

Lemma svgd_loss_and_grads_uninitialised self rng_key unconstr_params args :
  guide_param_names self = None → constrain_fn self = None →
  _svgd_loss_and_grads self rng_key unconstr_params args = None.
Proof.
  intros Hn Hc. unfold _svgd_loss_and_grads, items_not_in, items_in.
  rewrite Hn. destruct (decide (unconstr_params = ∅)) as [->|Hne]; [|done].
  cbn [mbind option_bind]. unfold value_and_grad, call_constrain_fn.
  by rewrite Hc.
Qed.

Lemma init_sets_fields self rng_key args self' state :
  init self rng_key args = Some (self', state) →
  is_Some (guide_param_names self') ∧ is_Some (constrain_fn self').
Proof.
  unfold init. intros H.
  apply bind_Some in H as ([[k1 k2] k3] & _ & H).
  apply bind_Some in H as (args' & _ & H).
  apply bind_Some in H as ([k4 k5] & _ & H).
  destruct (foldl _ _ _) as [[params transforms] names].
  injection H as <- <-. cbn. eauto.
Qed.

(** C10: the object that [__init__] builds has [None] in [guide_param_names]
    and in [constrain_fn]; on such an object [get_params], [update] and
    [evaluate] raise instead of returning; and [init], when it returns, has
    set both fields. *)
Theorem operations_require_init guide_is_AutoDelta kernel n m self :
  __init__ guide_is_AutoDelta kernel n m = Some self →
  (guide_param_names self = None ∧ constrain_fn self = None)
  ∧ (∀ state args,
       get_params self state = None
       ∧ update self state args = None
       ∧ evaluate self state args = None)
  ∧ (∀ rng_key args self' state,
       init self rng_key args = Some (self', state) →
       is_Some (guide_param_names self') ∧ is_Some (constrain_fn self')).
Proof.
  unfold __init__. destruct guide_is_AutoDelta; [|done]. intros [= <-].
  split; [done|]. split.
  - intros state args. split; [done|]. split.
    + unfold update. destruct (unpack2 _) as [[k1 k2]|]; [|done].
      cbn [mbind option_bind]. destruct (with_static_kwargs args) as [args'|]; [|done].
      cbn [mbind option_bind].
      by rewrite svgd_loss_and_grads_uninitialised.
    + unfold evaluate. destruct (unpack2 _) as [[k1 k2]|]; [|done]. done.
  - intros rng_key args self' state. apply init_sets_fields.
Qed.

(** *** The two force terms *)

Section Forces.
Hypothesis Rth : ring_theory rO rI radd rmul rsub ropp eq.
Add Ring Rring : Rth.





End Forces.

(** *** Contracts of the JAX functions *)

Section Contracts.
(** [jax.random.split(key, num)] returns [num] keys. *)
Hypothesis split_length : ∀ k n, length (split k n) = n.
(** A gradient has the structure of the argument it is taken for. *)
Hypothesis grad_particles_length : ∀ f X, length (grad_particles f X) = length X.
Hypothesis grad_dict_dom : ∀ f m, dom (grad_dict f m) = dom m.
(** Unraveling gives back the names that were raveled. *)
Hypothesis unravel_dom : ∀ d M, dom ((ravel_pytree d).2 M) = dom d.










(** X8: [init] unpacks the [1 + num_stein_particles] keys of its second
    split in two names, which raises unless there is one particle. *)
Lemma init_needs_one_particle self rng_key args :
  num_stein_particles self ≠ 1 → init self rng_key args = None.
Proof.
  intros Hn. unfold init.
  destruct (unpack3 (split rng_key 3)) as [[[k1 k2] k3]|]; [|done].
  cbn [mbind option_bind]. destruct (with_static_kwargs args) as [args'|]; [|done].
  cbn [mbind option_bind].
  pose proof (split_length k1 (1 + num_stein_particles self)) as Hlen.
  destruct (split k1 (1 + num_stein_particles self)) as [|a [|b [|d l]]];
    simpl in Hlen; try done. lia.
Qed.


End Contracts.

(** *** The names that [init] records *)

Lemma chars_of_length (s x : string) : x ∈ chars_of s → String.length x = 1.
Proof.
  induction s as [|a s IH]; simpl; [set_solver|].
  rewrite elem_of_union, elem_of_singleton. intros [->|H]; [done|by apply IH].
Qed.

Lemma init_site_characters model_trace init_params acc s :
  set_Forall (λ x, String.length x = 1) acc.2 →
  set_Forall (λ x, String.length x = 1) (init_site model_trace init_params acc s).2.
Proof.
  destruct acc as [[params transforms] names]. unfold init_site. cbn [snd].
  intros H. destruct (type s); [|done]. cbn [snd]. case_decide; [done|].
  apply set_Forall_union; [done|]. intros x. apply chars_of_length.
Qed.

(** Every name in [guide_param_names] after [init] is one character long:
    [set.update] is given the site name, a string, and adds its characters. *)
Lemma init_names_are_characters self rng_key args self' state names :
  init self rng_key args = Some (self', state) →
  guide_param_names self' = Some names →
  set_Forall (λ x, String.length x = 1) names.
Proof.
  unfold init. intros H.
  apply bind_Some in H as ([[k1 k2] k3] & _ & H).
  apply bind_Some in H as (args' & _ & H).
  apply bind_Some in H as ([k4 k5] & _ & H).
  match type of H with context [foldl ?f ?a ?l] =>
    assert (Hinv : set_Forall (λ x, String.length x = 1) (foldl f a l).2);
    [|destruct (foldl f a l) as [[params transforms] names']] end.
  { generalize (model_get_trace k2 args' ++ guide_get_trace k3 args').
    intros l. 
    assert (H0 : set_Forall (λ x, String.length x = 1)
                   (∅ : gmap string T, ∅ : gmap string Transform, ∅ : gset string).2)
      by (intros x Hx; set_solver).
    revert H0. generalize (∅ : gmap string T, ∅ : gmap string Transform, ∅ : gset string).
    induction l as [|s l IH]; intros acc Hacc; [done|].
    cbn [foldl]. apply IH. by apply init_site_characters. }
  injection H as <- <-. cbn. intros [= <-]. exact Hinv.
Qed.

(** *** What [init] records *)

(** The loop of [init] over the sites of both traces. *)
Definition init_loop (model_trace guide_trace : list site) (init_params : gmap string T)
  : gmap string T * gmap string Transform * gset string :=
  foldl (init_site model_trace init_params) (∅, ∅, ∅) (model_trace ++ guide_trace).

(** The constrained value that [init] starts from for a site. *)
Definition initial_value (init_params : gmap string T) (s : site) : T :=
  default (value s) (init_params !! name s).

Lemma init_Some_inv self rng_key args self' state :
  init self rng_key args = Some (self', state) →
  ∃ ks args' kp,
    unpack3 (split rng_key 3) = Some ks
    ∧ with_static_kwargs args = Some args'
    ∧ unpack2 (split ks.1.1 (1 + num_stein_particles self)) = Some kp
    ∧ let r := init_loop (model_get_trace ks.1.2 args') (guide_get_trace ks.2 args')
                 (find_params kp.2 args') in
      self' = mkSVGD (log_kernel_fn self) (num_stein_particles self)
                (num_loss_particles self) (Some r.2) (Some (transform_fn r.1.2))
      ∧ state = mkSVGDState (optim_init r.1.1) kp.1.
Proof.
  unfold init. intros H.
  apply bind_Some in H as ([[k1 k2] k3] & Hk & H).
  apply bind_Some in H as (args' & Ha & H).
  apply bind_Some in H as ([k4 k5] & Hp & H).
  exists (k1, k2, k3), args', (k4, k5). cbn [fst snd].
  split; [done|]. split; [done|]. split; [done|].
  unfold init_loop. destruct (foldl _ _ _) as [[params transforms] names].
  by injection H as <- <-.
Qed.

Lemma init_site_lookup model_trace init_params acc s n :
  ((init_site model_trace init_params acc s).1.1 !! n
   = if decide (type s = param ∧ name s = n)
     then Some (inv (biject_to (default real (constraint s)))
                  (initial_value init_params s))
     else acc.1.1 !! n)
  ∧ ((init_site model_trace init_params acc s).1.2 !! n
     = if decide (type s = param ∧ name s = n)
       then Some (biject_to (default real (constraint s)))
       else acc.1.2 !! n).
Proof.
  destruct acc as [[params transforms] names]. unfold init_site, initial_value.
  destruct (type s) eqn:Ht; cbn [fst snd].
  - destruct (decide (name s = n)) as [<-|Hne].
    + rewrite !decide_True by done. by rewrite !lookup_insert_eq.
    + rewrite !decide_False by (by intros [_ ?]). by rewrite !lookup_insert_ne.
  - by rewrite !decide_False by (by intros [? _]).
Qed.

(** After the loop a name is bound exactly when a [param] site has it, in
    the parameters and in the transforms alike. *)
Lemma init_fold_dom model_trace init_params sites acc :
  let r := foldl (init_site model_trace init_params) acc sites in
  dom r.1.1 = dom acc.1.1
              ∪ list_to_set (name <$> filter (λ s, type s = param) sites)
  ∧ dom r.1.2 = dom acc.1.2
                ∪ list_to_set (name <$> filter (λ s, type s = param) sites).
Proof.
  cbv zeta. revert acc. induction sites as [|s sites IH]; intros acc.
  - cbn [foldl]. rewrite filter_nil, fmap_nil. cbn [list_to_set].
    by rewrite !(right_id_L ∅ (∪)).
  - cbn [foldl]. destruct (IH (init_site model_trace init_params acc s)) as [-> ->].
    destruct acc as [[params transforms] names]. unfold init_site.
    rewrite filter_cons. destruct (decide (type s = param)) as [Ht|Ht].
    + rewrite Ht. cbn [fst snd]. rewrite fmap_cons, !dom_insert_L. cbn [list_to_set].
      rewrite (comm_L (∪) {[name s]} (dom params)).
      rewrite (comm_L (∪) {[name s]} (dom transforms)).
      by rewrite <- !(assoc_L (∪)).
    + destruct (type s); [done|]. done.
Qed.

(** The last [param] site with a name decides what is recorded for it. *)
Lemma init_fold_last model_trace init_params pre s post acc :
  type s = param →
  (∀ s', s' ∈ post → type s' = param → name s' ≠ name s) →
  let r := foldl (init_site model_trace init_params) acc (pre ++ s :: post) in
  r.1.1 !! name s
  = Some (inv (biject_to (default real (constraint s))) (initial_value init_params s))
  ∧ r.1.2 !! name s = Some (biject_to (default real (constraint s))).
Proof.
  intros Ht Hpost. cbv zeta. rewrite foldl_app. cbn [foldl].
  generalize (foldl (init_site model_trace init_params) acc pre). clear acc.
  intros acc.
  assert (H0 : (init_site model_trace init_params acc s).1.1 !! name s
               = Some (inv (biject_to (default real (constraint s)))
                         (initial_value init_params s))
               ∧ (init_site model_trace init_params acc s).1.2 !! name s
                 = Some (biject_to (default real (constraint s)))).
  { destruct (init_site_lookup model_trace init_params acc s (name s)) as [-> ->].
    by rewrite !decide_True. }
  revert H0. generalize (init_site model_trace init_params acc s). clear acc.
  induction post as [|s' post IH]; intros acc Hacc; [done|].
  cbn [foldl]. apply IH.
  - intros s'' Hin. apply Hpost. by right.
  - destruct (init_site_lookup model_trace init_params acc s' (name s)) as [-> ->].
    assert (Hne : ¬ (type s' = param ∧ name s' = name s)).
    { intros [Ht' Hn]. by apply (Hpost s' ltac:(by left) Ht'). }
    by rewrite !decide_False.
Qed.

(** The names that the loop collects: the characters of the names of the
    [param] sites that are not in the model trace. *)
Lemma init_fold_names model_trace init_params sites acc x :
  x ∈ (foldl (init_site model_trace init_params) acc sites).2
  ↔ x ∈ acc.2
    ∨ ∃ s, s ∈ sites ∧ type s = param ∧ (name s ∉ name <$> model_trace)
           ∧ x ∈ chars_of (name s).
Proof.
  revert acc. induction sites as [|s sites IH]; intros acc.
  - cbn. split; [by left|]. intros [H|(s & Hs & _)]; [done|].
    by apply elem_of_nil in Hs.
  - cbn [foldl]. rewrite IH. destruct acc as [[params transforms] names].
    unfold init_site. destruct (type s) eqn:Ht; cbn [snd].
    + case_decide as Hin.
      * split.
        -- intros [H|(s' & Hs' & H)]; [by left|]. right. exists s'.
           split; [by right|done].
        -- intros [H|(s' & Hs' & Ht' & Hn & Hx)]; [by left|].
           apply elem_of_cons in Hs' as [->|Hs']; [done|].
           right. by exists s'.
      * rewrite elem_of_union. split.
        -- intros [[H|H]|(s' & Hs' & H)]; [by left| |].
           ++ right. exists s. split; [by left|done].
           ++ right. exists s'. split; [by right|done].
        -- intros [H|(s' & Hs' & Ht' & Hn & Hx)]; [by left; left|].
           apply elem_of_cons in Hs' as [->|Hs']; [by left; right|].
           right. by exists s'.
    + split.
      * intros [H|(s' & Hs' & H)]; [by left|]. right. exists s'.
        split; [by right|done].
      * intros [H|(s' & Hs' & Ht' & Hn & Hx)]; [by left|].
        apply elem_of_cons in Hs' as [->|Hs']; [congruence|].
        right. by exists s'.
Qed.

(** X9: after [init], [guide_param_names] holds exactly the characters of
    the names of the [param] sites of the guide trace that are not in the
    model trace. *)
Theorem init_guide_param_names self rng_key args self' state :
  init self rng_key args = Some (self', state) →
  ∃ ks args' names,
    unpack3 (split rng_key 3) = Some ks
    ∧ with_static_kwargs args = Some args'
    ∧ guide_param_names self' = Some names
    ∧ ∀ x, x ∈ names
        ↔ ∃ s, s ∈ guide_get_trace ks.2 args' ∧ type s = param
               ∧ (name s ∉ name <$> model_get_trace ks.1.2 args')
               ∧ x ∈ chars_of (name s).
Proof.
  intros H. apply init_Some_inv in H as (ks & args' & kp & Hk & Ha & _ & -> & _).
  eexists ks, args', _. split; [done|]. split; [done|]. split; [reflexivity|].
  intros x. unfold init_loop. rewrite init_fold_names. cbn [snd]. split.
  - intros [H|(s & Hs & Ht & Hn & Hx)]; [set_solver|].
    apply elem_of_app in Hs as [Hs|Hs]; [|by exists s].
    exfalso. apply Hn. apply list_elem_of_fmap. by exists s.
  - intros (s & Hs & H). right. exists s. split; [|done].
    apply elem_of_app. by right.
Qed.

(** X10: the parameters that [init] hands to the optimizer, and the
    transforms behind [constrain_fn], are bound exactly at the names of the
    [param] sites of the two traces. *)
Theorem init_discovers_param_sites self rng_key args self' state :
  init self rng_key args = Some (self', state) →
  ∃ ks args' params transforms,
    unpack3 (split rng_key 3) = Some ks
    ∧ with_static_kwargs args = Some args'
    ∧ optim_state state = optim_init params
    ∧ constrain_fn self' = Some (transform_fn transforms)
    ∧ dom params
      = list_to_set (name <$> filter (λ s, type s = param)
                                (model_get_trace ks.1.2 args' ++ guide_get_trace ks.2 args'))
    ∧ dom transforms = dom params.
Proof.
  intros H. apply init_Some_inv in H as (ks & args' & kp & Hk & Ha & _ & -> & ->).
  eexists ks, args', _, _. split; [done|]. split; [done|].
  split; [reflexivity|]. split; [reflexivity|].
  unfold init_loop.
  destruct (init_fold_dom (model_get_trace ks.1.2 args') (find_params kp.2 args')
              (model_get_trace ks.1.2 args' ++ guide_get_trace ks.2 args') (∅, ∅, ∅))
    as [-> ->].
  cbn [fst snd]. by rewrite !dom_empty_L, !(left_id_L ∅ (∪)).
Qed.

(** X11: for the last [param] site with a given name, so for the guide's
    site when model and guide both have one, the optimizer starts from the
    inverse transform of the site's initial value: the entry of
    [guide.init_params] if there is one, the value of the site otherwise. *)
Theorem init_stores_unconstrained self rng_key args self' state :
  init self rng_key args = Some (self', state) →
  ∃ ks args' kp params,
    unpack3 (split rng_key 3) = Some ks
    ∧ with_static_kwargs args = Some args'
    ∧ unpack2 (split ks.1.1 (1 + num_stein_particles self)) = Some kp
    ∧ optim_state state = optim_init params
    ∧ ∀ pre s post,
        model_get_trace ks.1.2 args' ++ guide_get_trace ks.2 args' = pre ++ s :: post →
        type s = param →
        (∀ s', s' ∈ post → type s' = param → name s' ≠ name s) →
        params !! name s
        = Some (inv (biject_to (default real (constraint s)))
                  (initial_value (find_params kp.2 args') s)).
Proof.
  intros H. apply init_Some_inv in H as (ks & args' & kp & Hk & Ha & Hp & -> & ->).
  eexists ks, args', kp, _. split; [done|]. split; [done|]. split; [done|].
  split; [reflexivity|]. intros pre s post Hsites Ht Hpost.
  unfold init_loop. rewrite Hsites.
  by destruct (init_fold_last (model_get_trace ks.1.2 args') (find_params kp.2 args')
                 pre s post (∅, ∅, ∅) Ht Hpost) as [-> _].
Qed.

Lemma dom_transform_fn transforms (params : gmap string T) :
  dom (transform_fn transforms params) = dom params.
Proof.
  unfold transform_fn. apply set_eq. intros k.
  rewrite !elem_of_dom, map_lookup_imap.
  destruct (params !! k) as [v|]; cbn; [|by split; intros [? ?]].
  split; intros _; by eexists.
Qed.

(** X12: once [init] has returned, [get_params] succeeds on every state
    and returns a dictionary with the names that the optimizer holds. *)
Theorem get_params_after_init self rng_key args self' state0 (state : SVGDState) :
  init self rng_key args = Some (self', state0) →
  ∃ params, get_params self' state = Some params
            ∧ dom params = dom (optim_get_params (optim_state state)).
Proof.
  intros H. apply init_Some_inv in H as (ks & args' & kp & _ & _ & _ & -> & _).
  unfold get_params, call_constrain_fn. cbn [constrain_fn].
  eexists. split; [reflexivity|]. apply dom_transform_fn.
Qed.

(** X13: when the transforms are inverted by their [inv] and the optimizer
    gives back the parameters it was started with, [get_params] on the state
    that [init] returns gives every site its initial value, as decided by
    the last [param] site with that name. *)
Theorem init_get_params_roundtrip self rng_key args self' state :
  (∀ c v, call (biject_to c) (inv (biject_to c) v) = v) →
  (∀ params, optim_get_params (optim_init params) = params) →
  init self rng_key args = Some (self', state) →
  ∃ ks args' kp constrained,
    unpack3 (split rng_key 3) = Some ks
    ∧ with_static_kwargs args = Some args'
    ∧ unpack2 (split ks.1.1 (1 + num_stein_particles self)) = Some kp
    ∧ get_params self' state = Some constrained
    ∧ ∀ pre s post,
        model_get_trace ks.1.2 args' ++ guide_get_trace ks.2 args' = pre ++ s :: post →
        type s = param →
        (∀ s', s' ∈ post → type s' = param → name s' ≠ name s) →
        constrained !! name s = Some (initial_value (find_params kp.2 args') s).
Proof.
  intros Hinv Hopt H.
  apply init_Some_inv in H as (ks & args' & kp & Hk & Ha & Hp & -> & ->).
  eexists ks, args', kp, _. split; [done|]. split; [done|]. split; [done|].
  unfold get_params, call_constrain_fn. cbn [constrain_fn optim_state].
  split; [reflexivity|]. intros pre s post Hsites Ht Hpost.
  rewrite Hopt. unfold transform_fn. rewrite map_lookup_imap.
  unfold init_loop. rewrite Hsites.
  destruct (init_fold_last (model_get_trace ks.1.2 args') (find_params kp.2 args')
              pre s post (∅, ∅, ∅) Ht Hpost) as [-> ->].
  cbn. by rewrite Hinv.
Qed.

(** X14: when [constrain_fn] leaves the parameters of the state unchanged,
    as it does when no site is constrained, [evaluate] returns the loss
    that [update] returns. *)
Theorem evaluate_is_update_loss self (state : SVGDState) (args : Args) c :
  constrain_fn self = Some c →
  c (optim_get_params (optim_state state)) = optim_get_params (optim_state state) →
  evaluate self state args = snd <$> update self state args.
Proof.
  intros Hc Hid. unfold evaluate, update, get_params, call_constrain_fn.
  rewrite Hc. destruct (unpack2 _) as [[k1 k2]|]; [|done].
  cbn [mbind option_bind fst snd]. rewrite Hid.
  destruct (with_static_kwargs args) as [args'|]; [|done].
  cbn [mbind option_bind].
  by destruct (_svgd_loss_and_grads _ _ _ _) as [[l g]|].
Qed.

(** *** One step *)


(** [update] runs [_svgd_loss_and_grads] on the parameters that the
    optimizer holds. *)
Lemma update_loss self state args state' loss :
  update self state args = Some (state', loss) →
  ∃ ks args' grads,
    unpack2 (split (rng_key state) 2) = Some ks
    ∧ with_static_kwargs args = Some args'
    ∧ _svgd_loss_and_grads self ks.2 (optim_get_params (optim_state state)) args'
      = Some (loss, grads).
Proof.
  unfold update. intros H.
  apply bind_Some in H as ([k1 k2] & Hk & H).
  apply bind_Some in H as (args' & Ha & H).
  apply bind_Some in H as ([l g] & Hl & H).
  injection H as <- <-. by exists (k1, k2), args', g.
Qed.

(** [evaluate] splits the key as [update] does, but runs
    [_svgd_loss_and_grads] on the constrained parameters. *)
Lemma evaluate_loss self state args loss :
  evaluate self state args = Some loss →
  ∃ ks args' c grads,
    unpack2 (split (rng_key state) 2) = Some ks
    ∧ with_static_kwargs args = Some args'
    ∧ constrain_fn self = Some c
    ∧ _svgd_loss_and_grads self ks.2 (c (optim_get_params (optim_state state))) args'
      = Some (loss, grads).
Proof.
  unfold evaluate, get_params, call_constrain_fn. intros H.
  apply bind_Some in H as ([k1 k2] & Hk & H).
  destruct (constrain_fn self) as [c|]; [|done]. cbn [mbind option_bind] in H.
  apply bind_Some in H as (args' & Ha & H).
  apply bind_Some in H as ([l g] & Hl & H).
  injection H as <-. by exists (k1, k2), args', c, g.
Qed.

End SVGD.

(** ** A small instance

    Integer scalars, natural numbers as keys, one scalar per particle and
    site, a log density that adds up all parameter values, and a constant
    kernel.  The constraint [shifted] stands for a support that is not the
    whole line; its transform adds one. *)

Inductive demo_constraint := unconstrained | shifted.

Definition demo_split (k : nat) (n : nat) : list nat :=
  (λ i, 10 * k + i + 1) <$> seq 0 n.

Definition demo_mean (l : list Z) : Z := (foldr Z.add 0 l / Z.of_nat (length l))%Z.

Definition demo_tneg (t : list Z) : list Z := Z.opp <$> t.

Definition demo_tindex (i : nat) (t : list Z) : list Z := [t !!! i].

Definition demo_biject_to (c : demo_constraint) : Transform (T := list Z) :=
  match c with
  | unconstrained => {| call := λ t, t; inv := λ t, t |}
  | shifted => {| call := λ t, Z.add 1 <$> t; inv := λ t, (λ v, v - 1)%Z <$> t |}
  end.

Definition demo_model_get_trace (_ : nat) (_ : unit)
  : list (site (T := list Z) (Constraint := demo_constraint)) :=
  [Site "obs" sample [0%Z] None].

Definition demo_guide_get_trace (_ : nat) (_ : unit)
  : list (site (T := list Z) (Constraint := demo_constraint)) :=
  [Site "ab" param [0%Z] (Some shifted)].

Definition demo_find_params (_ : nat) (_ : unit) : gmap string (list Z) :=
  {[ "ab" := [4%Z] ]}.

Definition demo_guide_trace (_ : nat) (_ : unit) (params : gmap string (list Z))
  : gmap string (list Z) := params.

Definition demo_log_density (_ : nat) (trace : gmap string (list Z)) (_ : unit)
    (_ : gmap string (list Z)) : Z :=
  map_fold (λ _ t acc, foldr Z.add acc t) 0%Z trace.

Definition demo_optim_update (grads state : gmap string (list Z))
  : gmap string (list Z) :=
  union_with (λ p g, Some (zip_with Z.sub p g)) state grads.

Definition demo_grad_particles (_ : list (list Z) → option (list Z))
    (X : list (list Z)) : list (list Z) :=
  (λ x : list Z, (λ _ : Z, 1%Z) <$> x) <$> X.

Definition demo_grad_dict (_ : gmap string (list Z) → option (list Z))
    (m : gmap string (list Z)) : gmap string (list Z) :=
  (λ t : list Z, (λ _ : Z, 1%Z) <$> t) <$> m.

Definition demo_grad_vector (_ : list Z → Z) (y : list Z) : list Z :=
  (λ _, 0%Z) <$> y.

(** One row per particle, one column per site, and back. *)
Definition demo_ravel_pytree (d : gmap string (list Z))
  : list (list Z) * (list (list Z) → gmap string (list Z)) :=
  let names := (map_to_list d).*1 in
  let columns := (map_to_list d).*2 in
  let n := match columns with [] => 0 | c :: _ => length c end in
  ((λ i, (λ c : list Z, c !!! i) <$> columns) <$> seq 0 n,
   λ M, list_to_map
          (zip names ((λ j, (λ row : list Z, row !!! j) <$> M) <$> seq 0 (length names)))).

Definition demo_kernel (_ : list (list Z)) (_ _ : list Z) : Z := 1%Z.


Definition demo_init :=
  init (R := Z) demo_split Some unconstrained demo_biject_to demo_model_get_trace
    demo_guide_get_trace demo_find_params (λ p : gmap string (list Z), p).

Definition demo_update :=
  update 0%Z Z.add Z.mul Z.opp demo_mean demo_split demo_tneg demo_tindex Some
    demo_guide_trace demo_log_density (λ p : gmap string (list Z), p)
    demo_optim_update demo_grad_particles demo_grad_dict demo_grad_vector
    demo_ravel_pytree.

Definition demo_evaluate :=
  evaluate 0%Z Z.add Z.mul Z.opp demo_mean demo_split demo_tneg demo_tindex Some
    demo_guide_trace demo_log_density (λ p : gmap string (list Z), p)
    demo_grad_particles demo_grad_dict demo_grad_vector demo_ravel_pytree.

(** The object as [__init__] leaves it, with one and with ten particles. *)
Definition demo_svgd (n : nat) : SVGD (R := Z) (T := list Z) :=
  mkSVGD demo_kernel n 1 None None.

(** An object set up for two particles of the one site [w]. *)
Definition demo_two_particles : SVGD (R := Z) (T := list Z) :=
  mkSVGD demo_kernel 2 1 (Some {[ "w" ]}) (Some (λ p, p)).

Lemma demo_split_length (k n : nat) : length (demo_split k n) = n.
Proof. unfold demo_split. by rewrite length_fmap, length_seq. Qed.




Lemma operations_require_init_witness :
  __init__ (T := list Z) true demo_kernel 1 1 = Some (demo_svgd 1)
  ∧ get_params (key := nat) (λ p : gmap string (list Z), p) (demo_svgd 1)
      (mkSVGDState ∅ 7) = None
  ∧ demo_update (demo_svgd 1) (mkSVGDState ∅ 7) () = None
  ∧ demo_evaluate (demo_svgd 1) (mkSVGDState ∅ 7) () = None.
Proof.
  split; [reflexivity|].
  destruct (operations_require_init 0%Z Z.add Z.mul Z.opp demo_mean demo_split
              demo_tneg demo_tindex Some unconstrained demo_biject_to
              demo_model_get_trace demo_guide_get_trace demo_guide_trace
              demo_log_density demo_find_params (λ p : gmap string (list Z), p)
              (λ p : gmap string (list Z), p) demo_optim_update
              demo_grad_particles demo_grad_dict demo_grad_vector
              demo_ravel_pytree true demo_kernel 1 1 (demo_svgd 1) eq_refl)
    as (_ & H & _).
  exact (H (mkSVGDState ∅ 7) ()).
Defined.





(** C4 fails on the code: after [init] on a guide with the one
    parameter site [ab], which is not in the model trace,
    [guide_param_names] holds the two characters and not the name, so that
    the site is handled as a model parameter. *)
Lemma demo_init_guide_param_names :
  ∃ self state,
    demo_init (demo_svgd 1) 7 () = Some (self, state)
    ∧ guide_param_names self = Some {[ "a"; "b" ]}
    ∧ ("ab" ∉ ({[ "a"; "b" ]} : gset string))
    ∧ optim_state state = {[ "ab" := [3%Z] ]}
    ∧ items_in (guide_param_names self) (optim_state state) = Some ∅
    ∧ items_not_in (guide_param_names self) (optim_state state)
      = Some {[ "ab" := [3%Z] ]}.
Proof.
  eexists _, _. split; [vm_compute; reflexivity|].
  repeat split; try (vm_compute; reflexivity).
  vm_compute. intros H. discriminate H.
Qed.


(** C6 fails on the code: with ten particles [init] raises. *)
Lemma demo_init_ten_particles : demo_init (demo_svgd 10) 7 () = None.
Proof. vm_compute. reflexivity. Qed.

(** *** Instances of the further properties *)

(** The object and the state that [init] returns in the small instance. *)
Definition demo_initialised : SVGD (R := Z) (T := list Z) * SVGDState :=
  default (demo_svgd 1, mkSVGDState ∅ 0) (demo_init (demo_svgd 1) 7 ()).

Lemma demo_initialised_eq :
  demo_init (demo_svgd 1) 7 () = Some (demo_initialised.1, demo_initialised.2).
Proof. vm_compute. reflexivity. Qed.

Lemma demo_biject_to_inverse c (v : list Z) :
  call (demo_biject_to c) (inv (demo_biject_to c) v) = v.
Proof.
  destruct c; [done|]. cbn. rewrite <- list_fmap_compose.
  rewrite <- (list_fmap_id v) at 2. apply list_fmap_ext. intros _ x _. cbn. lia.
Qed.

Lemma init_needs_one_particle_witness :
  3 ≠ 1 ∧ demo_init (demo_svgd 3) 7 () = None.
Proof.
  split; [lia|]. unfold demo_init.
  eapply init_needs_one_particle; [apply demo_split_length|]. simpl. lia.
Defined.

Lemma init_guide_param_names_witness :
  ∃ ks args' names,
    unpack3 (demo_split 7 3) = Some ks
    ∧ Some () = Some args'
    ∧ guide_param_names demo_initialised.1 = Some names
    ∧ ∀ x, x ∈ names
        ↔ ∃ s, s ∈ demo_guide_get_trace ks.2 args' ∧ type s = param
               ∧ (name s ∉ name <$> demo_model_get_trace ks.1.2 args')
               ∧ x ∈ chars_of (name s).
Proof.
  eapply (init_guide_param_names demo_split Some unconstrained demo_biject_to
            demo_model_get_trace demo_guide_get_trace demo_find_params
            (λ p : gmap string (list Z), p) (demo_svgd 1) 7 ()).
  apply demo_initialised_eq.
Defined.

Lemma init_discovers_param_sites_witness :
  ∃ ks args' params transforms,
    unpack3 (demo_split 7 3) = Some ks
    ∧ Some () = Some args'
    ∧ optim_state demo_initialised.2 = params
    ∧ constrain_fn demo_initialised.1 = Some (transform_fn transforms)
    ∧ dom params
      = list_to_set (name <$> filter (λ s, type s = param)
                                (demo_model_get_trace ks.1.2 args'
                                 ++ demo_guide_get_trace ks.2 args'))
    ∧ dom transforms = dom params.
Proof.
  eapply (init_discovers_param_sites demo_split Some unconstrained demo_biject_to
            demo_model_get_trace demo_guide_get_trace demo_find_params
            (λ p : gmap string (list Z), p) (demo_svgd 1) 7 ()).
  apply demo_initialised_eq.
Defined.

Lemma init_stores_unconstrained_witness :
  ∃ ks args' kp params,
    unpack3 (demo_split 7 3) = Some ks
    ∧ Some () = Some args'
    ∧ unpack2 (demo_split ks.1.1 (1 + 1)) = Some kp
    ∧ optim_state demo_initialised.2 = params
    ∧ ∀ pre s post,
        demo_model_get_trace ks.1.2 args' ++ demo_guide_get_trace ks.2 args'
        = pre ++ s :: post →
        type s = param →
        (∀ s', s' ∈ post → type s' = param → name s' ≠ name s) →
        params !! name s
        = Some (inv (demo_biject_to (default unconstrained (constraint s)))
                  (initial_value (demo_find_params kp.2 args') s)).
Proof.
  eapply (init_stores_unconstrained demo_split Some unconstrained demo_biject_to
            demo_model_get_trace demo_guide_get_trace demo_find_params
            (λ p : gmap string (list Z), p) (demo_svgd 1) 7 ()).
  apply demo_initialised_eq.
Defined.

Lemma get_params_after_init_witness :
  ∃ params,
    get_params (λ p : gmap string (list Z), p) demo_initialised.1
      (mkSVGDState {[ "ab" := [9%Z] ]} 5) = Some params
    ∧ dom params = dom ({[ "ab" := [9%Z] ]} : gmap string (list Z)).
Proof.
  exact (get_params_after_init demo_split Some unconstrained demo_biject_to
           demo_model_get_trace demo_guide_get_trace demo_find_params
           (λ p : gmap string (list Z), p) (λ p : gmap string (list Z), p)
           (demo_svgd 1) 7 () demo_initialised.1 demo_initialised.2
           (mkSVGDState {[ "ab" := [9%Z] ]} 5) demo_initialised_eq).
Defined.

Lemma init_get_params_roundtrip_witness :
  ∃ ks args' kp constrained,
    unpack3 (demo_split 7 3) = Some ks
    ∧ Some () = Some args'
    ∧ unpack2 (demo_split ks.1.1 (1 + 1)) = Some kp
    ∧ get_params (λ p : gmap string (list Z), p) demo_initialised.1 demo_initialised.2
      = Some constrained
    ∧ ∀ pre s post,
        demo_model_get_trace ks.1.2 args' ++ demo_guide_get_trace ks.2 args'
        = pre ++ s :: post →
        type s = param →
        (∀ s', s' ∈ post → type s' = param → name s' ≠ name s) →
        constrained !! name s = Some (initial_value (demo_find_params kp.2 args') s).
Proof.
  eapply (init_get_params_roundtrip demo_split Some unconstrained demo_biject_to
            demo_model_get_trace demo_guide_get_trace demo_find_params
            (λ p : gmap string (list Z), p) (λ p : gmap string (list Z), p)
            (demo_svgd 1) 7 ()).
  - apply demo_biject_to_inverse.
  - reflexivity.
  - apply demo_initialised_eq.
Defined.

Lemma evaluate_is_update_loss_witness :
  demo_evaluate demo_two_particles (mkSVGDState {[ "w" := [1%Z; 3%Z] ]} 7) ()
  = snd <$> demo_update demo_two_particles (mkSVGDState {[ "w" := [1%Z; 3%Z] ]} 7) ().
Proof.
  unfold demo_evaluate, demo_update.
  eapply evaluate_is_update_loss; reflexivity.
Defined.



End Stein.
